(** * Trust scoring and age recommendation engines

    A shallow embedding of the classes [TrustScoreEngine] and
    [AgeRecommendationEngine] of the services layer and of the age tabs
    that call them, together with the properties the specification states
    about them and further properties read off the code.

    Numbers.  A TypeScript [number] that carries a statistic or a score is
    an exact rational ([Q]); ages, counters of occurrences and millisecond
    timestamps are integers ([Z], [nat]).  Rounding of IEEE doubles is not
    modelled.  Division is the one operation that leaves the finite
    numbers: [Js.div] returns [None] where JavaScript would produce
    [Infinity] or [NaN].

    Exceptions.  A function that reads a property of a value that may be
    [undefined] returns a [Js.Completion]: the value returned, or the
    [TypeError] thrown. *)

From Stdlib Require Import ZArith QArith Qminmax Lqa Lia.
From Stdlib Require Import Bool List String Ascii.
From Stdlib Require Import DecimalString DecimalZ.
Import ListNotations.

(** ** JavaScript primitives used by the two engines *)

Module Js.

(** [a / b]: a zero divisor yields a non-finite value, rendered [None]. *)
Definition div (a b : Q) : option Q :=
  if Qeq_bool b 0 then None else Some (a / b).

(** [x || d] on a number: [0] is falsy. *)
Definition or_else (x d : Q) : Q :=
  if Qeq_bool x 0 then d else x.

(** [a > b] and [a <= b], [a >= b] on finite numbers. *)
Definition gt (a b : Q) : bool := negb (Qle_bool a b).
Definition le (a b : Q) : bool := Qle_bool a b.
Definition ge (a b : Q) : bool := Qle_bool b a.

(** [arr.slice(start, end)] for non-negative indices. *)
Definition slice {A} (start stop : nat) (arr : list A) : list A :=
  firstn (stop - start) (skipn start arr).

(** [Date.now()]: the clock is the sequence of its future readings;
    reading it consumes one. *)
Definition Clock := nat -> Z.

Definition Date_now (clk : Clock) : Z * Clock :=
  (clk 0%nat, fun k => clk (S k)).

(** Template rendering of an integer, [`${n}`]. *)
Definition toString (n : Z) : string :=
  NilZero.string_of_int (Z.to_int n).

(** [Map<string, V>]: iteration follows insertion order, and [set] on a
    key already present keeps the key where it is. *)
Definition Map (V : Type) := list (string * V).

Fixpoint Map_get {V} (k : string) (m : Map V) : option V :=
  match m with
  | [] => None
  | (k', v) :: m' => if String.eqb k' k then Some v else Map_get k m'
  end.

Fixpoint Map_set {V} (k : string) (v : V) (m : Map V) : Map V :=
  match m with
  | [] => [(k, v)]
  | (k', v') :: m' =>
      if String.eqb k' k then (k', v) :: m' else (k', v') :: Map_set k v m'
  end.

Definition Map_values {V} (m : Map V) : list V := map snd m.

(** [Array.prototype.sort(cmp)]: the sort is stable, so for a consistent
    comparator its result is the one of a stable insertion sort.  An
    element is placed before the first element it need not follow. *)
Fixpoint sort_insert {A} (cmp : A -> A -> Z) (x : A) (l : list A) : list A :=
  match l with
  | [] => [x]
  | y :: l' =>
      if (cmp x y <=? 0)%Z then x :: y :: l' else y :: sort_insert cmp x l'
  end.

Fixpoint sort {A} (cmp : A -> A -> Z) (l : list A) : list A :=
  match l with
  | [] => []
  | x :: l' => sort_insert cmp x (sort cmp l')
  end.

(** [s || d] on a string: the empty string is falsy. *)
Definition or_string (s d : string) : string :=
  match s with
  | EmptyString => d
  | _ => s
  end.

(** How a call ends: with a value, or with an exception thrown.  Reading
    a property of [undefined] throws a [TypeError]. *)
Inductive Exception := TypeError.

Inductive Completion (A : Type) :=
| Returns (a : A)
| Throws (e : Exception).

Arguments Returns {A} a.
Arguments Throws {A} e.

Definition andThen {A B} (m : Completion A) (k : A -> Completion B)
  : Completion B :=
  match m with
  | Returns a => k a
  | Throws e => Throws e
  end.

(** The text before and after the first occurrence of the character [c]. *)
Fixpoint splitAt (c : ascii) (s : string) : option (string * string) :=
  match s with
  | EmptyString => None
  | String a s' =>
      if Ascii.eqb a c then Some (EmptyString, s')
      else match splitAt c s' with
           | Some (l, r) => Some (String a l, r)
           | None => None
           end
  end.

(** A whole string matched by the group [(\d+)] and read by
    [parseInt(_, 10)]: one decimal digit at least, and nothing else. *)
Definition parseDigits (s : string) : option Z :=
  option_map Z.of_uint (NilZero.uint_of_string s).

End Js.

(** Sequencing of computations that may leave the finite numbers. *)
Definition bind {A B} (m : option A) (k : A -> option B) : option B :=
  match m with
  | Some a => k a
  | None => None
  end.

Notation "x <- m ;; k" := (bind m (fun x => k))
  (at level 61, m at next level, right associativity).

(** Sequencing of calls that may throw. *)
Notation "x <~ m ;; k" := (Js.andThen m (fun x => k))
  (at level 61, m at next level, right associativity).

(** ** Data model (types/game.ts) *)

Inductive TrustLevel := verified | featured | hall.

Record SecurityStatus := mkSecurityStatus {
  hasAds : bool;
  hasTracking : bool;
  hasExternalLinks : bool;
  contentModerated : bool
}.

(** The badge as types/game.ts declares it, the security flags under the
    name [securityCheck].  The engine reads them under another name,
    [securityChecks], a property the declaration does not have: an object
    of the declared type lacks it ([None], JavaScript's [undefined]); an
    object can carry it on top of the declared fields. *)
Record TrustBadge := mkTrustBadge {
  level : TrustLevel;
  verifiedAt : option Z;
  parentRating : Q;
  totalRatings : Q;
  securityCheck : SecurityStatus;
  securityChecks : option SecurityStatus
}.

Record GameStats := mkGameStats {
  likes : Q;
  opens : Q;
  reports : Q;
  avgPlayTime : Q
}.

(** [Creator.id] and [Creator.name]; the prefix keeps them apart from the
    fields of [GameCard]. *)
Record Creator := mkCreator {
  creatorId : string;
  creatorName : string;
  avatar : option string
}.

Definition AgeRange := (Z * Z)%type.

Record GameCard := mkGameCard {
  id : string;
  title : string;
  coverUrl : string;
  description : string;
  ageRange : AgeRange;
  skills : list string;
  trustScore : Q;
  trustBadge : TrustBadge;
  estimatedDuration : Q;
  creator : Creator;
  stats : GameStats;
  gameUrl : string;
  isFavorited : bool;
  lastPlayed : option Z
}.

(** An entry of [UserHistory.recentGames]; [playedRange] is its
    [ageRange] field. *)
Record RecentGame := mkRecentGame {
  gameId : string;
  playedRange : AgeRange;
  playedAt : Z
}.

Record UserHistory := mkUserHistory {
  recentGames : list RecentGame;
  preferredAge : option AgeRange
}.

Record AgeGroupConfig := mkAgeGroupConfig {
  label : string;
  color : string;
  default : bool
}.

(** The object literal [AGE_GROUPS], looked up by its string keys (the
    keys built by the engine hold a dash, so no inherited property of the
    object is ever hit). *)
Definition AGE_GROUPS : Js.Map AgeGroupConfig :=
  [ ("3-6", mkAgeGroupConfig "3-6岁" "#10B981" false);
    ("6-9", mkAgeGroupConfig "6-9岁" "#3B82F6" true);
    ("9-12", mkAgeGroupConfig "9-12岁" "#8B5CF6" false);
    ("12+", mkAgeGroupConfig "12岁+" "#F59E0B" false) ]%string.

Definition TRUST_BADGE_TEXT (l : TrustLevel) : string :=
  match l with
  | verified => "已验证"
  | featured => "专家推荐"
  | hall => "殿堂级"
  end.

(** ** TrustScoreEngine *)

Module TrustScoreEngine.

(** [stats.opens > 0 ? stats.likes / stats.opens : 0] *)
Definition likeRate (s : GameStats) : option Q :=
  if Js.gt (opens s) 0 then Js.div (likes s) (opens s) else Some 0.

(** [stats.opens > 0 ? stats.reports / stats.opens : 0] *)
Definition reportRate (s : GameStats) : option Q :=
  if Js.gt (opens s) 0 then Js.div (reports s) (opens s) else Some 0.

(** [Math.min(avgPlayTime / 60, 1)] with [avgPlayTime = stats.avgPlayTime || 0] *)
Definition playTimeScore (s : GameStats) : option Q :=
  let avg := Js.or_else (avgPlayTime s) 0 in
  t <- Js.div avg 60 ;;
  Some (Qmin t 1).

Definition getBaseScore (game : GameCard) : option Q :=
  let s := stats game in
  p <- playTimeScore s ;;
  l <- likeRate s ;;
  r <- reportRate s ;;
  Some (p * 0.4 + l * 0.4 + (1 - r) * 0.2).

Definition getAgeMatchScore (game : GameCard) (userAge : option Z) : Q :=
  match userAge with
  | None => 1.0
  | Some userAge =>
      let '(minAge, maxAge) := ageRange game in
      if (userAge >=? minAge)%Z && (userAge <=? maxAge)%Z then 1.0
      else if (Z.abs (userAge - minAge) <=? 1)%Z
              || (Z.abs (userAge - maxAge) <=? 1)%Z then 0.8
      else if (Z.abs (userAge - minAge) <=? 2)%Z
              || (Z.abs (userAge - maxAge) <=? 2)%Z then 0.6
      else 0.3
  end.

(** [const { securityChecks } = game.trustBadge] and the first read of a
    flag of it: each function below starts that way, and the read throws
    when the property is missing. *)
Definition readSecurityChecks (game : GameCard)
  : Js.Completion SecurityStatus :=
  match securityChecks (trustBadge game) with
  | Some checks => Js.Returns checks
  | None => Js.Throws Js.TypeError
  end.

Definition getRiskLevelScore (game : GameCard) : Js.Completion Q :=
  checks <~ readSecurityChecks game ;;
  let score := 1.0 in
  let score := if hasAds checks then score * 0.7 else score in
  let score := if hasTracking checks then score * 0.8 else score in
  let score := if hasExternalLinks checks then score * 0.9 else score in
  let score := if contentModerated checks then score * 1.0 else score in
  Js.Returns (Qmax score 0.5).

Definition getFreshnessScore (game : GameCard) (clk : Js.Clock) : option Q :=
  let '(lastUpdated, clk) :=
    match lastPlayed game with
    | Some t => if (t =? 0)%Z then Js.Date_now clk else (t, clk)
    | None => Js.Date_now clk
    end in
  let '(now, _) := Js.Date_now clk in
  daysSinceUpdate <-
    Js.div (inject_Z (now - lastUpdated)) (1000 * 60 * 60 * 24) ;;
  Some (if Js.le daysSinceUpdate 7 then 1.0
        else if Js.le daysSinceUpdate 30 then 0.9
        else if Js.le daysSinceUpdate 90 then 0.8
        else 0.7).

(** The result is a thrown exception, or the score returned; the score is
    [None] where it is not a finite number. *)
Definition calculateTrustScore (game : GameCard) (clk : Js.Clock)
  : Js.Completion (option Q) :=
  let baseScore := getBaseScore game in
  let ageMatch := getAgeMatchScore game None in
  riskLevel <~ getRiskLevelScore game ;;
  let freshness := getFreshnessScore game clk in
  Js.Returns (baseScore <- baseScore ;;
              freshness <- freshness ;;
              Some (baseScore * ageMatch * riskLevel * freshness)).

Definition getTrustLevel (trustScore : Q) : TrustLevel :=
  if Js.ge trustScore 0.9 then hall
  else if Js.ge trustScore 0.75 then featured
  else verified.

Definition isGameSafe (game : GameCard) (strictMode : bool)
  : Js.Completion bool :=
  checks <~ readSecurityChecks game ;;
  Js.Returns
    (if negb (contentModerated checks) then false
     else if strictMode then
       if hasAds checks || hasTracking checks then false else true
     else true).

Record TrustLevelConfig := mkTrustLevelConfig {
  color : string;
  icon : string;
  text : string;
  description : string
}.

Definition getTrustLevelConfig (level : TrustLevel) : TrustLevelConfig :=
  match level with
  | verified =>
      mkTrustLevelConfig "#10B981" "shield-check" "已验证"
        "内容已通过基础安全审核"
  | featured =>
      mkTrustLevelConfig "#8B5CF6" "star" "专家推荐"
        "经过教育专家认可的内容"
  | hall =>
      mkTrustLevelConfig "#F59E0B" "crown" "殿堂级"
        "广受家长好评的优质内容"
  end.

Definition calculateSecurityStatus (game : GameCard)
  : Js.Completion SecurityStatus :=
  checks <~ readSecurityChecks game ;;
  Js.Returns {| hasAds := hasAds checks;
                hasTracking := hasTracking checks;
                hasExternalLinks := hasExternalLinks checks;
                contentModerated := contentModerated checks |}.

End TrustScoreEngine.

(** ** AgeRecommendationEngine *)

Module AgeRecommendationEngine.

Definition getDefaultAge : AgeRange := (6, 9)%Z.

Definition getAgeMatchScore (userAge : Z) (gameAgeRange : AgeRange) : Q :=
  let '(minAge, maxAge) := gameAgeRange in
  if (userAge >=? minAge)%Z && (userAge <=? maxAge)%Z then 1.0
  else if (Z.abs (userAge - minAge) <=? 1)%Z
          || (Z.abs (userAge - maxAge) <=? 1)%Z then 0.8
  else if (Z.abs (userAge - minAge) <=? 2)%Z
          || (Z.abs (userAge - maxAge) <=? 2)%Z then 0.6
  else 0.3.

(** The values of the [counts] map: [{ count, ageRange }]. *)
Record Tally := mkTally {
  count : nat;
  tallied : AgeRange
}.

(** [`${ageRange[0]}-${ageRange[1]}`] *)
Definition rangeKey (ageRange : AgeRange) : string :=
  (Js.toString (fst ageRange) ++ "-" ++ Js.toString (snd ageRange))%string.

(** The body of the [forEach] callback. *)
Definition tallyOne (counts : Js.Map Tally) (ageRange : AgeRange)
  : Js.Map Tally :=
  let key := rangeKey ageRange in
  match Js.Map_get key counts with
  | Some existing =>
      Js.Map_set key (mkTally (S (count existing)) (tallied existing)) counts
  | None => Js.Map_set key (mkTally 1 ageRange) counts
  end.

Definition byCountDesc (a b : Tally) : Z :=
  (Z.of_nat (count b) - Z.of_nat (count a))%Z.

Definition getMostCommonAgeRange (ageRanges : list AgeRange)
  : option AgeRange :=
  match ageRanges with
  | [] => None
  | _ =>
      let counts := fold_left tallyOne ageRanges [] in
      let sorted := Js.sort byCountDesc (Js.Map_values counts) in
      match sorted with
      | [] => None
      | first :: _ => Some (tallied first)
      end
  end.

Definition recommendAge (userHistory : option UserHistory) : AgeRange :=
  match userHistory with
  | None => getDefaultAge
  | Some h =>
      if (List.length (recentGames h) =? 0)%nat then getDefaultAge
      else
        match preferredAge h with
        | Some preferred => preferred
        | None =>
            let recentAges := map playedRange (recentGames h) in
            match getMostCommonAgeRange recentAges with
            | Some mostCommon => mostCommon
            | None => getDefaultAge
            end
        end
  end.

Definition recordAgeSelection (userHistory : option UserHistory)
    (ageRange : AgeRange) (clk : Js.Clock) : UserHistory :=
  let history :=
    match userHistory with
    | Some h => h
    | None => mkUserHistory [] None
    end in
  let '(now, _) := Js.Date_now clk in
  {| preferredAge := Some ageRange;
     recentGames :=
       mkRecentGame "age-selection" ageRange now
         :: Js.slice 0 49 (recentGames history) |}.

(** [AGE_GROUPS[key]?.label || `${ageRange[0]}-${ageRange[1]}岁`] *)
Definition getAgeLabel (ageRange : AgeRange) : string :=
  let key := rangeKey ageRange in
  let fallback := (rangeKey ageRange ++ "岁")%string in
  match Js.Map_get key AGE_GROUPS with
  | Some config => Js.or_string (label config) fallback
  | None => fallback
  end.

(** [AGE_GROUPS[key]?.color || '#3B82F6'] *)
Definition getAgeColor (ageRange : AgeRange) : string :=
  let key := rangeKey ageRange in
  match Js.Map_get key AGE_GROUPS with
  | Some config => Js.or_string (color config) "#3B82F6"
  | None => "#3B82F6"%string
  end.

(** [ageStr.match(/^(\d+)-(\d+)$/)] with both groups read by [parseInt]:
    digits hold no dash, so the first group ends at the first dash. *)
Definition matchRange (ageStr : string) : option AgeRange :=
  match Js.splitAt "-" ageStr with
  | Some (l, r) =>
      match Js.parseDigits l, Js.parseDigits r with
      | Some lo, Some hi => Some (lo, hi)
      | _, _ => None
      end
  | None => None
  end.

(** [ageStr.match(/^(\d+)\+$/)]: the plus sign ends the string. *)
Definition matchPlus (ageStr : string) : option Z :=
  match Js.splitAt "+" ageStr with
  | Some (l, EmptyString) => Js.parseDigits l
  | _ => None
  end.

Definition parseAgeRange (ageStr : string) : option AgeRange :=
  match matchRange ageStr with
  | Some r => Some r
  | None =>
      match matchPlus ageStr with
      | Some n => Some (n, 99%Z)
      | None => None
      end
  end.

Definition recommendByChildAge (childAge : Z) : AgeRange :=
  if (childAge >=? 3)%Z && (childAge <=? 6)%Z then (3, 6)%Z
  else if (childAge >=? 6)%Z && (childAge <=? 9)%Z then (6, 9)%Z
  else if (childAge >=? 9)%Z && (childAge <=? 12)%Z then (9, 12)%Z
  else if (childAge >=? 12)%Z then (12, 99)%Z
  else (3, 6)%Z.

End AgeRecommendationEngine.

(** ** AgeSelector: the callbacks of the age tabs

    The component state is the selected band; [handleAgeSelect] gives the
    state after a click on the tab of [ageKey].  The [onAgeChange] callback
    of the parent component, called with the same band, is not part of the
    model. *)

Module AgeSelector.

Definition isSelected (selectedAge : AgeRange) (ageKey : string) : bool :=
  String.eqb (AgeRecommendationEngine.rangeKey selectedAge) ageKey.

Definition isRecommended (recommendedAge : option AgeRange)
    (ageKey : string) : bool :=
  match recommendedAge with
  | None => false
  | Some r => String.eqb (AgeRecommendationEngine.rangeKey r) ageKey
  end.

Definition handleAgeSelect (ageKey : string) (selectedAge : AgeRange)
  : AgeRange :=
  match AgeRecommendationEngine.parseAgeRange ageKey with
  | Some ageRange => ageRange
  | None => selectedAge
  end.

End AgeSelector.

(** ** Specification-level vocabulary *)

(** The four bands of the age-fit rule, in the words of the specification:
    exact containment, within one year of either bound, within two years,
    anything else; the tightest band is checked first. *)
Inductive AgeBand := Exact | WithinOne | WithinTwo | Beyond.

Definition within (years userAge bound : Z) : bool :=
  (Z.abs (userAge - bound) <=? years)%Z.

Definition ageBand (userAge : Z) (range : AgeRange) : AgeBand :=
  if (fst range <=? userAge)%Z && (userAge <=? snd range)%Z then Exact
  else if within 1 userAge (fst range) || within 1 userAge (snd range)
       then WithinOne
  else if within 2 userAge (fst range) || within 2 userAge (snd range)
       then WithinTwo
  else Beyond.

Definition bandScore (b : AgeBand) : Q :=
  match b with
  | Exact => 1.0
  | WithinOne => 0.8
  | WithinTwo => 0.6
  | Beyond => 0.3
  end.

(** Equality of results up to the representation of a rational. *)
Definition sameScore (a b : option Q) : Prop :=
  match a, b with
  | Some x, Some y => x == y
  | None, None => True
  | _, _ => False
  end.

(** *** Counting bands in a history *)

Definition AgeRange_eqb (a b : AgeRange) : bool :=
  (fst a =? fst b)%Z && (snd a =? snd b)%Z.

(** Number of entries of [l] that carry the band [r]. *)
Definition occurrences (r : AgeRange) (l : list AgeRange) : nat :=
  List.length (filter (AgeRange_eqb r) l).

(** Position of the first entry of [l] that carries the band [r]
    ([length l] when there is none). *)
Fixpoint firstIndex (r : AgeRange) (l : list AgeRange) : nat :=
  match l with
  | [] => 0%nat
  | x :: l' => if AgeRange_eqb x r then 0%nat else S (firstIndex r l')
  end.

(** The distinct bands of [l], each at the place of its first occurrence. *)
Fixpoint firsts (l : list AgeRange) : list AgeRange :=
  match l with
  | [] => []
  | x :: l' => x :: filter (fun y => negb (AgeRange_eqb y x)) (firsts l')
  end.

(** The tie-break in the words of the specification: one pass over the
    list with running counts; a band takes the lead when its running count
    exceeds the best count so far, so the band that first reaches the
    maximum count wins. *)
Fixpoint singlePass (seen : list AgeRange) (best : option AgeRange)
    (bestCount : nat) (rest : list AgeRange) : option AgeRange :=
  match rest with
  | [] => best
  | r :: rest' =>
      let c := S (occurrences r seen) in
      if (bestCount <? c)%nat then singlePass (r :: seen) (Some r) c rest'
      else singlePass (r :: seen) best bestCount rest'
  end.

Definition firstToReachMax (l : list AgeRange) : option AgeRange :=
  singlePass [] None 0%nat l.

(** A string without the separator of [rangeKey]. *)
Fixpoint dashFree (s : string) : Prop :=
  match s with
  | EmptyString => True
  | String c s' => c <> "-"%char /\ dashFree s'
  end.

(** What the tally holds for the band [r] once the list [l] is counted. *)
Definition tallyEntry (l : list AgeRange) (r : AgeRange)
  : string * AgeRecommendationEngine.Tally :=
  (AgeRecommendationEngine.rangeKey r,
   AgeRecommendationEngine.mkTally (occurrences r l) r).

(** *** Orders and distances *)

(** [verified < featured < hall]. *)
Definition tierRank (l : TrustLevel) : nat :=
  match l with
  | verified => 0%nat
  | featured => 1%nat
  | hall => 2%nat
  end.

(** How many years the age lies outside the band. *)
Definition distanceToBand (userAge : Z) (range : AgeRange) : Z :=
  Z.max 0 (Z.max (fst range - userAge) (userAge - snd range)).

Definition scoreAtDistance (d : Z) : Q :=
  if (d <=? 0)%Z then 1.0
  else if (d <=? 1)%Z then 0.8
  else if (d <=? 2)%Z then 0.6
  else 0.3.

(** The product of the penalties of the flags that are set. *)
Definition flagPenalty (flags : SecurityStatus) : Q :=
  (if hasAds flags then 0.7 else 1)
  * (if hasTracking flags then 0.8 else 1)
  * (if hasExternalLinks flags then 0.9 else 1).

Definition withLastPlayed (g : GameCard) (last : option Z) : GameCard :=
  {| id := id g; title := title g; coverUrl := coverUrl g;
     description := description g; ageRange := ageRange g;
     skills := skills g; trustScore := trustScore g;
     trustBadge := trustBadge g;
     estimatedDuration := estimatedDuration g; creator := creator g;
     stats := stats g; gameUrl := gameUrl g;
     isFavorited := isFavorited g; lastPlayed := last |}.

(** *** Sample data *)

Definition moderatedOnly : SecurityStatus :=
  mkSecurityStatus false false false true.

Definition moderatedWithAds : SecurityStatus :=
  mkSecurityStatus true false false true.

(** A card whose badge carries the flags under both names: the declared
    [securityCheck] and the [securityChecks] that the engine reads. *)
Definition sampleGame (s : GameStats) (flags : SecurityStatus)
    (last : option Z) : GameCard :=
  {| id := "g1"; title := "sample"; coverUrl := ""; description := "";
     ageRange := (6, 9)%Z; skills := []; trustScore := 0;
     trustBadge := mkTrustBadge verified None 0 0 flags (Some flags);
     estimatedDuration := 10;
     creator := mkCreator "c1" "creator" None;
     stats := s; gameUrl := ""; isFavorited := false;
     lastPlayed := last |}.

(** A card of the declared type: the flags under [securityCheck] only. *)
Definition declaredGame (s : GameStats) (flags : SecurityStatus)
    (last : option Z) : GameCard :=
  {| id := "g1"; title := "sample"; coverUrl := ""; description := "";
     ageRange := (6, 9)%Z; skills := []; trustScore := 0;
     trustBadge := mkTrustBadge verified None 0 0 flags None;
     estimatedDuration := 10;
     creator := mkCreator "c1" "creator" None;
     stats := s; gameUrl := ""; isFavorited := false;
     lastPlayed := last |}.

(** Ten likes on a single open. *)
Definition overlikedGame : GameCard :=
  sampleGame (mkGameStats 10 1 0 60) moderatedOnly None.

(** A game nobody opened yet. *)
Definition unopenedGame : GameCard :=
  sampleGame (mkGameStats 3 0 2 30) moderatedOnly None.

Definition stillClock : Js.Clock := fun _ => 1700000000000%Z.

Definition played (r : AgeRange) : RecentGame := mkRecentGame "g" r 0.

(** A preference recorded without any game played. *)
Definition preferenceOnly : UserHistory :=
  mkUserHistory [] (Some (3, 6)%Z).

Definition preferenceAndGames : UserHistory :=
  mkUserHistory [played (9, 12)%Z; played (9, 12)%Z] (Some (3, 6)%Z).

(** Two bands played twice each, interleaved. *)
Definition tiedHistory : UserHistory :=
  mkUserHistory
    [played (3, 6)%Z; played (6, 9)%Z; played (6, 9)%Z; played (3, 6)%Z]
    None.

(** ** Arithmetic helpers *)

Ltac qcases :=
  repeat match goal with
  | |- context [Qle_bool ?a ?b] =>
      let E := fresh "E" in
      destruct (Qle_bool a b) eqn:E;
      [ apply Qle_bool_iff in E
      | apply not_true_iff_false in E; rewrite Qle_bool_iff in E ]
  end.

Ltac zcases :=
  rewrite ?Z.geb_leb;
  repeat match goal with
  | |- context [(?a <=? ?b)%Z] => destruct (Z.leb_spec a b)
  end.

Lemma gt_zero_nonzero (a : Q) : Js.gt a 0 = true -> Qeq_bool a 0 = false.
Proof.
  unfold Js.gt. intros H.
  apply negb_true_iff, not_true_iff_false in H.
  rewrite Qle_bool_iff in H.
  apply not_true_iff_false. rewrite Qeq_bool_iff. lra.
Qed.

Lemma div_defined (a b : Q) : ~ b == 0 -> Js.div a b = Some (a / b).
Proof.
  intros H. unfold Js.div.
  destruct (Qeq_bool b 0) eqn:E; [ | reflexivity ].
  apply Qeq_bool_iff in E. contradiction.
Qed.

Lemma gt_zero_false (a : Q) : a == 0 -> Js.gt a 0 = false.
Proof.
  intros H. unfold Js.gt. apply negb_false_iff, Qle_bool_iff. lra.
Qed.

Section TrustScoreFacts.

Import TrustScoreEngine.

Variable game : GameCard.

Lemma playTimeScore_total :
  playTimeScore (stats game)
  = Some (Qmin (Js.or_else (avgPlayTime (stats game)) 0 / 60) 1).
Proof.
  unfold playTimeScore. rewrite div_defined by (intro H; discriminate H).
  reflexivity.
Qed.

Lemma likeRate_total : exists l, likeRate (stats game) = Some l.
Proof.
  unfold likeRate. destruct (Js.gt (opens (stats game)) 0) eqn:E.
  - unfold Js.div. rewrite (gt_zero_nonzero _ E). eauto.
  - eauto.
Qed.

Lemma reportRate_total : exists r, reportRate (stats game) = Some r.
Proof.
  unfold reportRate. destruct (Js.gt (opens (stats game)) 0) eqn:E.
  - unfold Js.div. rewrite (gt_zero_nonzero _ E). eauto.
  - eauto.
Qed.

Lemma getBaseScore_total : exists b, getBaseScore game = Some b.
Proof.
  unfold getBaseScore. rewrite playTimeScore_total.
  destruct likeRate_total as [l ->], reportRate_total as [r ->].
  simpl. eauto.
Qed.

Lemma getFreshnessScore_total (clk : Js.Clock) :
  exists f, getFreshnessScore game clk = Some f
            /\ (f == 1.0 \/ f == 0.9 \/ f == 0.8 \/ f == 0.7).
Proof.
  unfold getFreshnessScore.
  destruct (match lastPlayed game with
            | Some t => if (t =? 0)%Z then Js.Date_now clk else (t, clk)
            | None => Js.Date_now clk
            end) as [lastUpdated clk'].
  destruct (Js.Date_now clk') as [now rest].
  rewrite div_defined by (intro H; discriminate H).
  simpl bind. eexists. split; [ reflexivity | ].
  unfold Js.le. qcases; lra.
Qed.

(** The risk factor: a [TypeError] on a badge without [securityChecks],
    the product of the penalties of the flags otherwise. *)
Lemma getRiskLevelScore_cases :
  match securityChecks (trustBadge game) with
  | Some flags =>
      exists k, getRiskLevelScore game = Js.Returns k
                /\ k == flagPenalty flags /\ 0.504 <= k /\ k <= 1
  | None => getRiskLevelScore game = Js.Throws Js.TypeError
  end.
Proof.
  unfold getRiskLevelScore, readSecurityChecks, flagPenalty.
  destruct (securityChecks (trustBadge game)) as [[[] [] [] []] | ];
    [ .. | reflexivity ];
    cbn [Js.andThen hasAds hasTracking hasExternalLinks contentModerated];
    eexists; (split; [ reflexivity | ]);
    repeat split; vm_compute; reflexivity || discriminate.
Qed.

End TrustScoreFacts.

(** ** Properties of the trust score *)

Section TrustScoreClaims.

Import TrustScoreEngine.

(** C1.  The claim bounds [calculateTrustScore] by [0, 1] for all
    non-negative statistics.  With ten likes on one open (and a full
    hour of play, no flag, fresh content) the like-rate term is 10 and
    the score is 4.6. *)
Theorem calculateTrustScore_exceeds_one :
  exists s, calculateTrustScore overlikedGame stillClock
            = Js.Returns (Some s)
            /\ s == 4.6 /\ ~ (0 <= s <= 1).
Proof.
  eexists. split; [ vm_compute; reflexivity | ].
  split; [ reflexivity | ].
  intros [_ H]. vm_compute in H. apply H. reflexivity.
Qed.

(** C3 (as stated).  The score 0.9 is not classified [featured]. *)
Lemma getTrustLevel_nine_tenths_not_featured :
  ~ (getTrustLevel 0.9 = featured
     /\ getTrustLevel 0.8999 = featured
     /\ getTrustLevel 0.75 = featured
     /\ getTrustLevel 0.7499 = verified
     /\ getTrustLevel 0.9001 = hall).
Proof.
  intros [H _]. vm_compute in H. discriminate H.
Qed.

(** C3 (amended).  At the boundary values: 0.9 is [hall], 0.8999 and
    0.75 are [featured], 0.7499 is [verified] and 0.9001 is [hall]. *)
Theorem getTrustLevel_boundaries :
  getTrustLevel 0.9 = hall
  /\ getTrustLevel 0.8999 = featured
  /\ getTrustLevel 0.75 = featured
  /\ getTrustLevel 0.7499 = verified
  /\ getTrustLevel 0.9001 = hall.
Proof.
  repeat split; reflexivity.
Qed.

(** C5.  [getTrustLevel] returns [hall] from 0.9 upwards, [featured]
    from 0.75 up to but excluding 0.9, and [verified] below 0.75: each
    boundary belongs to the higher tier. *)
Theorem getTrustLevel_tiers (s : Q) :
  (0.9 <= s -> getTrustLevel s = hall)
  /\ (0.75 <= s -> s < 0.9 -> getTrustLevel s = featured)
  /\ (s < 0.75 -> getTrustLevel s = verified).
Proof.
  unfold getTrustLevel, Js.ge.
  repeat split; intros; qcases; reflexivity || lra.
Qed.

(** The three tiers at 0.9, 0.75 and 0.7. *)
Lemma getTrustLevel_tiers_witness :
  getTrustLevel 0.9 = hall
  /\ getTrustLevel 0.75 = featured
  /\ getTrustLevel 0.7 = verified.
Proof.
  split; [ | split ].
  - apply (proj1 (getTrustLevel_tiers 0.9)). discriminate.
  - apply (proj1 (proj2 (getTrustLevel_tiers 0.75))).
    + discriminate.
    + reflexivity.
  - apply (proj2 (proj2 (getTrustLevel_tiers 0.7))). reflexivity.
Defined.

End TrustScoreClaims.

Section TrustScoreGuards.

Import TrustScoreEngine.

(** C6.  When [opens] is zero the like rate and the report rate are both
    0, so the suppression term [1 - reportRate] is 1, and the base score
    is defined for every value of [likes], [reports] and [avgPlayTime]:
    it is the play-time term weighted 0.4 plus 0.2. *)
Theorem getBaseScore_no_opens (game : GameCard) :
  opens (stats game) == 0 ->
  likeRate (stats game) = Some 0
  /\ reportRate (stats game) = Some 0
  /\ exists p b,
       playTimeScore (stats game) = Some p
       /\ getBaseScore game = Some b
       /\ b == p * 0.4 + 0 * 0.4 + 1 * 0.2.
Proof.
  intros H0.
  assert (Hl : likeRate (stats game) = Some 0)
    by (unfold likeRate; now rewrite gt_zero_false).
  assert (Hr : reportRate (stats game) = Some 0)
    by (unfold reportRate; now rewrite gt_zero_false).
  repeat split; trivial.
  unfold getBaseScore. rewrite Hl, Hr, playTimeScore_total.
  do 2 eexists. split; [ reflexivity | ].
  split; [ reflexivity | ]. lra.
Qed.

(** A game with likes and reports but no open. *)
Lemma getBaseScore_no_opens_witness :
  likeRate (stats unopenedGame) = Some 0
  /\ reportRate (stats unopenedGame) = Some 0
  /\ exists p b,
       playTimeScore (stats unopenedGame) = Some p
       /\ getBaseScore unopenedGame = Some b
       /\ b == p * 0.4 + 0 * 0.4 + 1 * 0.2.
Proof.
  apply (getBaseScore_no_opens unopenedGame). reflexivity.
Defined.

(** C7.  The claim gives [isGameSafe] a boolean for every combination of
    flags.  On a badge without the property [securityChecks], which is
    every badge of the declared type, the first read of a flag throws a
    [TypeError] in either mode, so no boolean is returned. *)
Theorem isGameSafe_throws_without_checks (game : GameCard)
    (strictMode : bool) :
  securityChecks (trustBadge game) = None ->
  isGameSafe game strictMode = Js.Throws Js.TypeError.
Proof.
  intros H. unfold isGameSafe, readSecurityChecks.
  rewrite H. reflexivity.
Qed.

(** A card of the declared type, moderated and with ads, in both modes. *)
Lemma isGameSafe_throws_without_checks_witness :
  isGameSafe (declaredGame (mkGameStats 1 1 0 1) moderatedWithAds None) true
    = Js.Throws Js.TypeError
  /\ isGameSafe (declaredGame (mkGameStats 1 1 0 1) moderatedWithAds None)
       false
     = Js.Throws Js.TypeError.
Proof.
  split;
    apply (isGameSafe_throws_without_checks
             (declaredGame (mkGameStats 1 1 0 1) moderatedWithAds None));
    reflexivity.
Defined.

(** X26.  On a card whose badge carries [securityChecks], [isGameSafe]
    returns false whenever the content is not moderated; in strict mode
    it also returns false whenever the game has ads or tracking; in every
    remaining case it returns true. *)
Theorem isGameSafe_rule (game : GameCard) (flags : SecurityStatus)
    (strictMode : bool) :
  securityChecks (trustBadge game) = Some flags ->
  (contentModerated flags = false ->
   isGameSafe game strictMode = Js.Returns false)
  /\ (strictMode = true -> hasAds flags || hasTracking flags = true ->
      isGameSafe game strictMode = Js.Returns false)
  /\ (contentModerated flags = true ->
      strictMode = false \/ hasAds flags || hasTracking flags = false ->
      isGameSafe game strictMode = Js.Returns true).
Proof.
  intros H. unfold isGameSafe, readSecurityChecks. rewrite H.
  destruct flags as [ads trk ext cm].
  cbn [Js.andThen contentModerated hasAds hasTracking].
  repeat split.
  - intros ->. reflexivity.
  - intros -> ->. now destruct cm.
  - intros -> [-> | ->]; [ reflexivity | now destruct strictMode ].
Qed.

(** Moderated content with ads: unsafe in strict mode, safe otherwise. *)
Lemma isGameSafe_rule_witness :
  isGameSafe (sampleGame (mkGameStats 1 1 0 1) moderatedWithAds None) true
    = Js.Returns false
  /\ isGameSafe (sampleGame (mkGameStats 1 1 0 1) moderatedWithAds None) false
    = Js.Returns true.
Proof.
  split.
  - apply (proj1 (proj2 (isGameSafe_rule
             (sampleGame (mkGameStats 1 1 0 1) moderatedWithAds None)
             moderatedWithAds true eq_refl)));
      reflexivity.
  - apply (proj2 (proj2 (isGameSafe_rule
             (sampleGame (mkGameStats 1 1 0 1) moderatedWithAds None)
             moderatedWithAds false eq_refl)));
      [ reflexivity | left; reflexivity ].
Defined.



(** X27.  On a card whose badge carries [securityChecks],
    [calculateTrustScore] asks for the age-match factor without a user
    age, which is 1.0; the three other factors are defined and the score
    returned is their product. *)
Theorem calculateTrustScore_ignores_user_age (game : GameCard)
    (flags : SecurityStatus) (clk : Js.Clock) :
  securityChecks (trustBadge game) = Some flags ->
  getAgeMatchScore game None = 1.0
  /\ exists b k f s,
       getBaseScore game = Some b
       /\ getRiskLevelScore game = Js.Returns k
       /\ getFreshnessScore game clk = Some f
       /\ calculateTrustScore game clk = Js.Returns (Some s)
       /\ s == b * k * f.
Proof.
  intros H. split; [ reflexivity | ].
  destruct (getBaseScore_total game) as [b Hb].
  destruct (getFreshnessScore_total game clk) as (f & Hf & _).
  pose proof (getRiskLevelScore_cases game) as R. rewrite H in R.
  destruct R as (k & Hk & _).
  exists b, k, f. unfold calculateTrustScore. rewrite Hb, Hf, Hk.
  cbn [Js.andThen bind getAgeMatchScore].
  eexists. repeat split. ring.
Qed.

(** A card that carries the flags under the name the engine reads. *)
Lemma calculateTrustScore_ignores_user_age_witness :
  getAgeMatchScore (sampleGame (mkGameStats 2 4 1 30) moderatedOnly None) None
    = 1.0
  /\ exists b k f s,
       getBaseScore (sampleGame (mkGameStats 2 4 1 30) moderatedOnly None)
         = Some b
       /\ getRiskLevelScore
            (sampleGame (mkGameStats 2 4 1 30) moderatedOnly None)
          = Js.Returns k
       /\ getFreshnessScore
            (sampleGame (mkGameStats 2 4 1 30) moderatedOnly None) stillClock
          = Some f
       /\ calculateTrustScore
            (sampleGame (mkGameStats 2 4 1 30) moderatedOnly None) stillClock
          = Js.Returns (Some s)
       /\ s == b * k * f.
Proof.
  apply (calculateTrustScore_ignores_user_age
           (sampleGame (mkGameStats 2 4 1 30) moderatedOnly None)
           moderatedOnly stillClock).
  reflexivity.
Defined.

End TrustScoreGuards.

(** ** Agreement of the two age-match functions *)

(** C8.  For every user age and every age range the age-fit factor of the
    trust engine and the match score of the recommendation engine are the
    same number, the one of the four-band rule: 1.0 inside the range, 0.8
    within one year of a bound, 0.6 within two years, 0.3 otherwise. *)
Theorem getAgeMatchScore_agree (game : GameCard) (userAge : Z) :
  TrustScoreEngine.getAgeMatchScore game (Some userAge)
  = AgeRecommendationEngine.getAgeMatchScore userAge (ageRange game)
  /\ AgeRecommendationEngine.getAgeMatchScore userAge (ageRange game)
     = bandScore (ageBand userAge (ageRange game)).
Proof.
  unfold TrustScoreEngine.getAgeMatchScore,
    AgeRecommendationEngine.getAgeMatchScore, ageBand, within.
  destruct (ageRange game) as [minAge maxAge]. cbn [fst snd].
  split; [ reflexivity | ].
  rewrite Z.geb_leb.
  repeat match goal with
         | |- context [if ?c then _ else _] => destruct c
         end; reflexivity.
Qed.

(** ** The keys of the tally *)

Section RangeKeys.

Import AgeRecommendationEngine.

Lemma AgeRange_eqb_spec (a b : AgeRange) : reflect (a = b) (AgeRange_eqb a b).
Proof.
  destruct a as [a1 a2], b as [b1 b2]. unfold AgeRange_eqb. cbn [fst snd].
  destruct (Z.eqb_spec a1 b1), (Z.eqb_spec a2 b2); constructor; congruence.
Qed.

Lemma AgeRange_eq_dec (a b : AgeRange) : {a = b} + {a <> b}.
Proof. exact (reflect_dec _ _ (AgeRange_eqb_spec a b)). Qed.

Lemma digits_dashFree (d : Decimal.uint) :
  dashFree (NilEmpty.string_of_uint d).
Proof.
  induction d; simpl; auto; split; auto; discriminate.
Qed.

Lemma uint_dashFree (d : Decimal.uint) :
  dashFree (NilZero.string_of_uint d)
  /\ NilZero.string_of_uint d <> EmptyString.
Proof.
  destruct d;
    try (split; [ apply (digits_dashFree (_ d)) | discriminate ]).
  simpl. split; [ split; [ discriminate | exact I ] | discriminate ].
Qed.

(** The first separator of a key is found after a dash-free prefix. *)
Lemma dashFree_split (u1 u2 t1 t2 : string) :
  dashFree u1 -> dashFree u2 ->
  (u1 ++ String "-" t1 = u2 ++ String "-" t2)%string ->
  u1 = u2 /\ t1 = t2.
Proof.
  revert u2. induction u1 as [ | c u1 IH ]; intros [ | c2 u2 ]; simpl.
  - intros _ _ [= ->]. auto.
  - intros _ [Hc _] [= <- _]. now destruct Hc.
  - intros [Hc _] _ [= -> _]. now destruct Hc.
  - intros [_ H1] [_ H2] [= -> E].
    destruct (IH _ H1 H2 E) as [-> ->]. auto.
Qed.

Lemma toString_inj (a b : Z) : Js.toString a = Js.toString b -> a = b.
Proof.
  unfold Js.toString. intros E.
  apply DecimalZ.to_int_inj.
  assert (N : forall z, Z.to_int z <> Decimal.Pos Decimal.Nil
                        /\ Z.to_int z <> Decimal.Neg Decimal.Nil).
  { intros [ | p | p ]; simpl; split; try discriminate;
      intros [= H]; now apply DecimalPos.Unsigned.to_uint_nonnil in H. }
  destruct (N a) as [Ha1 Ha2], (N b) as [Hb1 Hb2].
  pose proof (NilZero.isi _ Ha1 Ha2) as Ia.
  pose proof (NilZero.isi _ Hb1 Hb2) as Ib.
  rewrite E in Ia. congruence.
Qed.

(** A rendered integer is an optional sign followed by a non-empty
    dash-free body. *)
Lemma toString_shape (n : Z) :
  exists body, dashFree body /\ body <> EmptyString
               /\ (Js.toString n = body \/ Js.toString n = String "-" body).
Proof.
  unfold Js.toString.
  destruct (Z.to_int n) as [d | d]; simpl;
    destruct (uint_dashFree d) as [H1 H2]; eauto.
Qed.

Lemma rangeKey_inj (r1 r2 : AgeRange) : rangeKey r1 = rangeKey r2 -> r1 = r2.
Proof.
  destruct r1 as [a1 b1], r2 as [a2 b2]. unfold rangeKey. cbn [fst snd].
  intros E.
  assert (K : Js.toString a1 = Js.toString a2
              /\ Js.toString b1 = Js.toString b2).
  { destruct (toString_shape a1) as (u1 & D1 & N1 & S1).
    destruct (toString_shape a2) as (u2 & D2 & N2 & S2).
    destruct S1 as [S1 | S1], S2 as [S2 | S2];
      rewrite S1, S2 in *; simpl in E.
    - destruct (dashFree_split _ _ _ _ D1 D2 E) as [-> ->]. auto.
    - destruct u1 as [ | c u1 ]; [ now destruct N1 | ].
      simpl in E. injection E as -> _. now destruct D1 as [[] _].
    - destruct u2 as [ | c u2 ]; [ now destruct N2 | ].
      simpl in E. injection E as <- _. now destruct D2 as [[] _].
    - injection E as E.
      destruct (dashFree_split _ _ _ _ D1 D2 E) as [-> ->]. auto. }
  destruct K as [Ka Kb].
  apply toString_inj in Ka, Kb. congruence.
Qed.

Lemma rangeKey_eqb (r1 r2 : AgeRange) :
  String.eqb (rangeKey r1) (rangeKey r2) = AgeRange_eqb r1 r2.
Proof.
  destruct (String.eqb_spec (rangeKey r1) (rangeKey r2)) as [E | E],
           (AgeRange_eqb_spec r1 r2) as [F | F]; trivial.
  - now apply rangeKey_inj in E.
  - now subst.
Qed.

End RangeKeys.

(** ** Counting: the tally after a pass over the list *)

Section Counting.

Import AgeRecommendationEngine.

Lemma AgeRange_eqb_refl (r : AgeRange) : AgeRange_eqb r r = true.
Proof. now destruct (AgeRange_eqb_spec r r). Qed.

Lemma AgeRange_eqb_sym (a b : AgeRange) : AgeRange_eqb a b = AgeRange_eqb b a.
Proof.
  destruct (AgeRange_eqb_spec a b), (AgeRange_eqb_spec b a); congruence.
Qed.

Lemma member_In (x : AgeRange) (l : list AgeRange) :
  existsb (AgeRange_eqb x) l = true <-> In x l.
Proof.
  rewrite existsb_exists. split.
  - intros (y & Hy & E). now destruct (AgeRange_eqb_spec x y); subst.
  - intros H. exists x. split; [ assumption | apply AgeRange_eqb_refl ].
Qed.

Lemma occurrences_snoc (r x : AgeRange) (l : list AgeRange) :
  occurrences r (l ++ [x])
  = (occurrences r l + if AgeRange_eqb r x then 1 else 0)%nat.
Proof.
  unfold occurrences. rewrite filter_app, length_app. simpl.
  now destruct (AgeRange_eqb r x).
Qed.

Lemma occurrences_absent (r : AgeRange) (l : list AgeRange) :
  ~ In r l -> occurrences r l = 0%nat.
Proof.
  unfold occurrences. induction l as [ | x l IH ]; simpl; [ trivial | ].
  intros H. destruct (AgeRange_eqb_spec r x) as [-> | _].
  - destruct H. now left.
  - apply IH. tauto.
Qed.

Lemma occurrences_present (r : AgeRange) (l : list AgeRange) :
  In r l -> (0 < occurrences r l)%nat.
Proof.
  unfold occurrences. induction l as [ | x l IH ]; simpl; [ tauto | ].
  intros [-> | H].
  - rewrite AgeRange_eqb_refl. simpl. lia.
  - destruct (AgeRange_eqb r x); simpl; auto with arith.
Qed.

Lemma firsts_In (r : AgeRange) (l : list AgeRange) :
  In r (firsts l) <-> In r l.
Proof.
  induction l as [ | x l IH ]; simpl; [ tauto | ].
  rewrite filter_In, IH, negb_true_iff.
  destruct (AgeRange_eqb_spec r x) as [-> | N]; split; intuition congruence.
Qed.

Lemma firsts_NoDup (l : list AgeRange) : NoDup (firsts l).
Proof.
  induction l as [ | x l IH ]; simpl; constructor.
  - rewrite filter_In, AgeRange_eqb_refl. simpl. intros [_ H]. discriminate.
  - now apply NoDup_filter.
Qed.

Lemma firsts_snoc (x : AgeRange) (l : list AgeRange) :
  firsts (l ++ [x])
  = if existsb (AgeRange_eqb x) l then firsts l else firsts l ++ [x].
Proof.
  induction l as [ | a l IH ]; simpl; [ reflexivity | ].
  rewrite IH. destruct (existsb (AgeRange_eqb x) l).
  - now rewrite orb_true_r.
  - rewrite orb_false_r, filter_app. simpl.
    destruct (AgeRange_eqb x a); simpl; now rewrite ?app_nil_r.
Qed.

Lemma Map_get_tally (l fs : list AgeRange) (x : AgeRange) :
  Js.Map_get (rangeKey x) (map (tallyEntry l) fs)
  = if existsb (AgeRange_eqb x) fs
    then Some (mkTally (occurrences x l) x) else None.
Proof.
  induction fs as [ | r fs IH ]; simpl; [ reflexivity | ].
  rewrite rangeKey_eqb, (AgeRange_eqb_sym x r).
  destruct (AgeRange_eqb_spec r x) as [-> | _]; [ reflexivity | exact IH ].
Qed.

Lemma tallyEntry_other (l fs : list AgeRange) (x : AgeRange) :
  ~ In x fs -> map (tallyEntry (l ++ [x])) fs = map (tallyEntry l) fs.
Proof.
  intros H. apply map_ext_in. intros r Hr. unfold tallyEntry.
  rewrite occurrences_snoc.
  destruct (AgeRange_eqb_spec r x) as [-> | _]; [ contradiction | ].
  now rewrite Nat.add_0_r.
Qed.

Lemma Map_set_present (l fs : list AgeRange) (x : AgeRange) :
  NoDup fs -> In x fs ->
  Js.Map_set (rangeKey x) (mkTally (S (occurrences x l)) x)
    (map (tallyEntry l) fs)
  = map (tallyEntry (l ++ [x])) fs.
Proof.
  induction 1 as [ | r fs Hr Hfs IH ]; simpl; [ tauto | ].
  rewrite rangeKey_eqb. intros Hx.
  destruct (AgeRange_eqb_spec r x) as [-> | N].
  - rewrite (tallyEntry_other l fs x Hr). unfold tallyEntry at 2.
    now rewrite occurrences_snoc, AgeRange_eqb_refl, Nat.add_1_r.
  - destruct Hx as [-> | Hx]; [ congruence | ].
    rewrite (IH Hx). f_equal. unfold tallyEntry.
    rewrite occurrences_snoc.
    destruct (AgeRange_eqb_spec r x); [ congruence | ].
    now rewrite Nat.add_0_r.
Qed.

Lemma Map_set_absent (l fs : list AgeRange) (x : AgeRange) (v : Tally) :
  ~ In x fs ->
  Js.Map_set (rangeKey x) v (map (tallyEntry l) fs)
  = map (tallyEntry l) fs ++ [(rangeKey x, v)].
Proof.
  induction fs as [ | r fs IH ]; simpl; [ reflexivity | ].
  intros H. rewrite rangeKey_eqb.
  destruct (AgeRange_eqb_spec r x) as [-> | _]; [ tauto | ].
  rewrite IH by tauto. reflexivity.
Qed.

(** The tally built by the [forEach] pass: one entry per distinct band,
    in the order in which the bands first occur, each with the number of
    its occurrences and the band itself. *)
Lemma tally_spec (l : list AgeRange) :
  fold_left tallyOne l [] = map (tallyEntry l) (firsts l).
Proof.
  induction l as [ | x l IH ] using rev_ind; [ reflexivity | ].
  rewrite fold_left_app, IH. simpl. unfold tallyOne.
  rewrite Map_get_tally, firsts_snoc.
  destruct (existsb (AgeRange_eqb x) (firsts l)) eqn:E.
  - apply member_In in E.
    replace (existsb (AgeRange_eqb x) l) with true
      by (symmetry; now apply member_In, firsts_In).
    cbn [count tallied].
    apply Map_set_present; [ apply firsts_NoDup | assumption ].
  - assert (N : ~ In x (firsts l))
      by (rewrite <- member_In; congruence).
    replace (existsb (AgeRange_eqb x) l) with false
      by (symmetry; apply not_true_iff_false;
          rewrite member_In, <- firsts_In; assumption).
    rewrite Map_set_absent by assumption.
    rewrite map_app, (tallyEntry_other l (firsts l) x N). simpl.
    unfold tallyEntry at 3.
    rewrite occurrences_snoc, AgeRange_eqb_refl.
    rewrite occurrences_absent by (now rewrite <- firsts_In).
    reflexivity.
Qed.

End Counting.

(** ** The head of the sorted tally *)

Section SortedHead.

Import AgeRecommendationEngine.

Lemma sort_insert_nonempty (x : Tally) (l : list Tally) :
  Js.sort_insert byCountDesc x l <> [].
Proof.
  destruct l as [ | y l ]; simpl; [ discriminate | ].
  destruct (byCountDesc x y <=? 0)%Z; discriminate.
Qed.

Lemma sort_nil_inv (l : list Tally) : Js.sort byCountDesc l = [] -> l = [].
Proof.
  destruct l as [ | x l ]; simpl; [ trivial | ].
  intros H. now apply sort_insert_nonempty in H.
Qed.

(** After the stable sort by descending count the first element is the
    first of the input whose count is maximal: everything before it in
    the input has a strictly smaller count, nothing after it a larger one. *)
Lemma sort_head_first_max (l : list Tally) (e : Tally) (rest : list Tally) :
  Js.sort byCountDesc l = e :: rest ->
  exists pre post,
    l = pre ++ e :: post
    /\ Forall (fun e' => (count e' < count e)%nat) pre
    /\ Forall (fun e' => (count e' <= count e)%nat) post.
Proof.
  revert e rest. induction l as [ | x l IH ]; simpl; [ discriminate | ].
  intros e rest. destruct (Js.sort byCountDesc l) as [ | h t ] eqn:S.
  - apply sort_nil_inv in S. subst l. simpl. intros [= <- _].
    exists [], []. repeat split; constructor.
  - destruct (IH h t eq_refl) as (pre & post & -> & Hpre & Hpost).
    simpl. unfold byCountDesc at 1.
    destruct (Z.leb_spec (Z.of_nat (count h) - Z.of_nat (count x)) 0)
      as [L | L]; intros [= <- _].
    + exists [], (pre ++ h :: post). repeat split; [ constructor | ].
      apply Forall_app. split; [ | constructor ].
      * eapply Forall_impl; [ | exact Hpre ]. simpl. intros. lia.
      * lia.
      * eapply Forall_impl; [ | exact Hpost ]. simpl. intros. lia.
    + exists (x :: pre), post. repeat split; [ | assumption ].
      constructor; [ lia | assumption ].
Qed.

Lemma filter_split (f : AgeRange -> bool) (l pre post : list AgeRange)
    (r : AgeRange) :
  filter f l = pre ++ r :: post ->
  exists p q, l = p ++ r :: q /\ forall y, In y post -> In y q.
Proof.
  revert pre. induction l as [ | a l IH ]; simpl; intros pre E.
  - now destruct pre.
  - destruct (f a).
    + destruct pre as [ | b pre ]; simpl in E; injection E as -> E.
      * exists [], l. split; [ reflexivity | ].
        intros y Hy. rewrite <- E in Hy. now apply filter_In in Hy.
      * destruct (IH _ E) as (p & q & -> & Hq).
        exists (b :: p), q. auto.
    + destruct (IH _ E) as (p & q & -> & Hq).
      exists (a :: p), q. auto.
Qed.

(** The order of [firsts] is the order of first occurrences. *)
Lemma firsts_order (l pre post : list AgeRange) (r r' : AgeRange) :
  firsts l = pre ++ r :: post -> In r' post ->
  (firstIndex r l < firstIndex r' l)%nat.
Proof.
  revert pre post. induction l as [ | x l IH ]; simpl; intros pre post E Hr'.
  - now destruct pre.
  - destruct pre as [ | b pre ]; simpl in E; injection E as -> E.
    + rewrite AgeRange_eqb_refl.
      rewrite <- E in Hr'. apply filter_In in Hr' as [_ Hr'].
      apply negb_true_iff in Hr'. rewrite AgeRange_eqb_sym in Hr'.
      rewrite Hr'. lia.
    + assert (Hr : In r (filter (fun y => negb (AgeRange_eqb y b)) (firsts l)))
        by (rewrite E; apply in_elt).
      assert (Hr'' : In r' (filter (fun y => negb (AgeRange_eqb y b)) (firsts l)))
        by (rewrite E; apply in_or_app; right; now right).
      apply filter_In in Hr as [_ Hr], Hr'' as [_ Hr''].
      apply negb_true_iff in Hr, Hr''.
      rewrite AgeRange_eqb_sym in Hr, Hr''. rewrite Hr, Hr''.
      destruct (filter_split _ _ _ _ _ E) as (p & q & Ef & Hq).
      apply -> Nat.succ_lt_mono. eapply IH; eauto.
Qed.

(** The band returned for a non-empty list: it has the largest number of
    occurrences, and among the bands with that number it is the one that
    occurs first in the list. *)
Lemma getMostCommonAgeRange_spec (l : list AgeRange) :
  l <> [] ->
  exists r,
    getMostCommonAgeRange l = Some r
    /\ In r l
    /\ (forall r', (occurrences r' l <= occurrences r l)%nat)
    /\ (forall r', r' <> r -> occurrences r' l = occurrences r l ->
                   (firstIndex r l < firstIndex r' l)%nat).
Proof.
  intros Hl. unfold getMostCommonAgeRange.
  destruct l as [ | x0 l0 ] eqn:El; [ congruence | ].
  rewrite <- El in *. clear El x0 l0.
  cbv zeta. rewrite tally_spec. unfold Js.Map_values. rewrite map_map.
  destruct (Js.sort byCountDesc _) as [ | e rest ] eqn:S.
  { apply sort_nil_inv, map_eq_nil in S.
    destruct l as [ | x l ]; [ congruence | discriminate S ]. }
  apply sort_head_first_max in S as (pre & post & E & Hpre & Hpost).
  apply map_eq_app in E as (pre_r & tl & Ef & <- & E).
  apply map_eq_cons in E as (r & post_r & -> & <- & <-).
  cbn [snd tallyEntry tallied count] in *.
  rewrite Forall_map in Hpre, Hpost. cbn [snd tallyEntry count] in *.
  rewrite Forall_forall in Hpre, Hpost.
  assert (Hr : In r l) by (apply firsts_In; rewrite Ef; apply in_elt).
  assert (Hcase : forall r', In r' l ->
            In r' pre_r \/ r' = r \/ In r' post_r).
  { intros r' H. apply firsts_In in H. rewrite Ef in H.
    apply in_app_or in H as [H | [H | H]]; auto. }
  exists r. repeat split; trivial.
  - intros r'. destruct (in_dec AgeRange_eq_dec r' l) as [H | H].
    + destruct (Hcase r' H) as [H1 | [-> | H1]].
      * apply Hpre in H1. lia.
      * lia.
      * now apply Hpost.
    + rewrite (occurrences_absent _ _ H). lia.
  - intros r' Hne Heq.
    assert (H : In r' l).
    { destruct (in_dec AgeRange_eq_dec r' l) as [H | H]; [ assumption | ].
      apply occurrences_absent in H. apply occurrences_present in Hr. lia. }
    destruct (Hcase r' H) as [H1 | [-> | H1]].
    + apply Hpre in H1. lia.
    + congruence.
    + eapply firsts_order; eauto.
Qed.

End SortedHead.

(** ** Properties of the age recommendation *)

Section RecommendationClaims.

Import AgeRecommendationEngine.

(** C2 (as stated).  A preference recorded in a history without games is
    not returned: the default band is. *)
Lemma recommendAge_preference_without_games :
  ~ (forall (h : UserHistory) (p : AgeRange),
       preferredAge h = Some p -> recommendAge (Some h) = p).
Proof.
  intros H. specialize (H preferenceOnly (3, 6)%Z eq_refl).
  vm_compute in H. discriminate H.
Qed.

(** C2 (amended).  When [preferredAge] is set and [recentGames] is not
    empty, [recommendAge] returns the preferred band whatever the games
    are; when [recentGames] is empty it returns the default band. *)
Theorem recommendAge_preferred (h : UserHistory) (p : AgeRange) :
  preferredAge h = Some p ->
  (recentGames h <> [] -> recommendAge (Some h) = p)
  /\ (recentGames h = [] -> recommendAge (Some h) = getDefaultAge).
Proof.
  intros Hp. unfold recommendAge. rewrite Hp.
  destruct (recentGames h) as [ | g gs ]; simpl; split; congruence.
Qed.

(** A preference with two games played, and the same preference alone. *)
Lemma recommendAge_preferred_witness :
  recommendAge (Some preferenceAndGames) = (3, 6)%Z
  /\ recommendAge (Some preferenceOnly) = getDefaultAge.
Proof.
  split.
  - apply (proj1 (recommendAge_preferred preferenceAndGames (3, 6)%Z eq_refl)).
    discriminate.
  - apply (proj2 (recommendAge_preferred preferenceOnly (3, 6)%Z eq_refl)).
    reflexivity.
Defined.

(** X20.  The histories that [recordAgeSelection] produces never meet the
    guard on an empty list: the band just selected is the one recommended. *)
Lemma recommendAge_after_selection (userHistory : option UserHistory)
    (selected : AgeRange) (clk : Js.Clock) :
  recommendAge (Some (recordAgeSelection userHistory selected clk)) = selected.
Proof.
  unfold recordAgeSelection. destruct (Js.Date_now clk) as [now rest].
  reflexivity.
Qed.

(** C4 (as stated).  The band returned is not always the one that first
    reaches the maximum count in a pass over the list: in the history
    (3,6), (6,9), (6,9), (3,6) the band (6,9) reaches two first, and
    (3,6) is returned. *)
Lemma recommendAge_not_first_to_reach_max :
  ~ (forall h : UserHistory,
       preferredAge h = None -> recentGames h <> [] ->
       Some (recommendAge (Some h))
       = firstToReachMax (map playedRange (recentGames h))).
Proof.
  intros H.
  assert (N : recentGames tiedHistory <> []) by discriminate.
  specialize (H tiedHistory eq_refl N).
  vm_compute in H. discriminate H.
Qed.

(** C4 (amended).  Without a preference and with a non-empty list of
    games, [recommendAge] returns a band of the list with the largest
    number of occurrences; among several bands with that number it
    returns the one whose first occurrence in the list comes first. *)
Theorem recommendAge_most_common (h : UserHistory) :
  preferredAge h = None -> recentGames h <> [] ->
  let ages := map playedRange (recentGames h) in
  let r := recommendAge (Some h) in
  In r ages
  /\ (forall r', (occurrences r' ages <= occurrences r ages)%nat)
  /\ (forall r', r' <> r -> occurrences r' ages = occurrences r ages ->
                 (firstIndex r ages < firstIndex r' ages)%nat).
Proof.
  intros Hp Hg ages r.
  assert (Ha : ages <> []).
  { subst ages. destruct (recentGames h); [ congruence | discriminate ]. }
  destruct (getMostCommonAgeRange_spec ages Ha) as (m & Hm & H).
  assert (Hr : r = m).
  { subst r. unfold recommendAge. rewrite Hp.
    destruct (recentGames h) as [ | g gs ] eqn:E; [ congruence | ].
    cbn [List.length Nat.eqb]. fold ages. now rewrite Hm. }
  now rewrite Hr.
Qed.

(** The interleaved history with two bands played twice each. *)
Lemma recommendAge_most_common_witness :
  let ages := map playedRange (recentGames tiedHistory) in
  let r := recommendAge (Some tiedHistory) in
  In r ages
  /\ (forall r', (occurrences r' ages <= occurrences r ages)%nat)
  /\ (forall r', r' <> r -> occurrences r' ages = occurrences r ages ->
                 (firstIndex r ages < firstIndex r' ages)%nat).
Proof.
  apply (recommendAge_most_common tiedHistory).
  - reflexivity.
  - discriminate.
Defined.

(** C9.  The history returned by [recordAgeSelection] starts with the
    new record and continues with the first 49 of the previous entries
    in their order, so it never has more than 50 entries; what the
    previous list held beyond its 49th entry is dropped. *)
Theorem recordAgeSelection_bounded (userHistory : option UserHistory)
    (selected : AgeRange) (clk : Js.Clock) :
  let old := match userHistory with
             | Some h => recentGames h
             | None => []
             end in
  let new := recentGames (recordAgeSelection userHistory selected clk) in
  new = mkRecentGame "age-selection" selected (clk 0%nat) :: firstn 49 old
  /\ old = firstn 49 old ++ skipn 49 old
  /\ (List.length new <= 50)%nat
  /\ List.length new = S (Nat.min 49 (List.length old)).
Proof.
  intros old new.
  assert (E : new = mkRecentGame "age-selection" selected (clk 0%nat)
                      :: firstn 49 old).
  { subst new old. unfold recordAgeSelection, Js.slice.
    destruct userHistory as [h | ]; reflexivity. }
  rewrite E. cbn [List.length]. rewrite length_firstn.
  repeat split.
  - symmetry. apply firstn_skipn.
  - lia.
Qed.

End RecommendationClaims.

(** ** Further properties of the trust score factors *)

Section TrustFactors.

Import TrustScoreEngine.

(** X1.  The risk factor throws a [TypeError] on a badge without
    [securityChecks]; on a badge that carries them it is the product of
    the penalties of the flags that are set (0.7 for ads, 0.8 for
    tracking, 0.9 for external links): it is at least 0.504, so the floor
    of 0.5 never applies, and it does not depend on [contentModerated]. *)
Theorem getRiskLevelScore_never_floored (g : GameCard) :
  match securityChecks (trustBadge g) with
  | Some flags =>
      exists k, getRiskLevelScore g = Js.Returns k
                /\ k == flagPenalty flags /\ 0.504 <= k
  | None => getRiskLevelScore g = Js.Throws Js.TypeError
  end.
Proof.
  pose proof (getRiskLevelScore_cases g) as R.
  destruct (securityChecks (trustBadge g)) as [flags | ]; [ | exact R ].
  destruct R as (k & Ek & Ep & Hk & _). exists k. auto.
Qed.

Lemma days_le (a b : Z) :
  (a <= b)%Z ->
  inject_Z a / (1000 * 60 * 60 * 24) <= inject_Z b / (1000 * 60 * 60 * 24).
Proof.
  intros H. rewrite Zle_Qle in H. unfold Qdiv.
  apply Qmult_le_compat_r; [ assumption | vm_compute; discriminate ].
Qed.

Lemma days_exact (k : Z) :
  inject_Z (k * 86400000) / (1000 * 60 * 60 * 24) == inject_Z k.
Proof.
  rewrite inject_Z_mult. field.
Qed.

Lemma freshness_played (g : GameCard) (t : Z) (clk : Js.Clock) :
  t <> 0%Z ->
  getFreshnessScore (withLastPlayed g (Some t)) clk
  = let d := inject_Z (clk 0%nat - t) / (1000 * 60 * 60 * 24) in
    Some (if Js.le d 7 then 1.0
          else if Js.le d 30 then 0.9
          else if Js.le d 90 then 0.8
          else 0.7).
Proof.
  intros Ht. unfold getFreshnessScore. cbn [lastPlayed withLastPlayed].
  apply Z.eqb_neq in Ht. rewrite Ht. cbn [Js.Date_now].
  rewrite div_defined by (intro H; discriminate H). reflexivity.
Qed.

(** X2.  Freshness never decreases when the game was played more
    recently: for two non-zero [lastPlayed] stamps read against the same
    clock, the later stamp gets a factor at least as large. *)
Theorem getFreshnessScore_monotone (g : GameCard) (t1 t2 : Z)
    (clk : Js.Clock) :
  t1 <> 0%Z -> t2 <> 0%Z -> (t1 <= t2)%Z ->
  exists f1 f2,
    getFreshnessScore (withLastPlayed g (Some t1)) clk = Some f1
    /\ getFreshnessScore (withLastPlayed g (Some t2)) clk = Some f2
    /\ f1 <= f2.
Proof.
  intros H1 H2 L.
  rewrite (freshness_played g t1 clk H1), (freshness_played g t2 clk H2).
  cbv zeta. do 2 eexists. split; [ reflexivity | ]. split; [ reflexivity | ].
  assert (D : inject_Z (clk 0%nat - t2) / (1000 * 60 * 60 * 24)
              <= inject_Z (clk 0%nat - t1) / (1000 * 60 * 60 * 24))
    by (apply days_le; lia).
  unfold Js.le. qcases; lra.
Qed.

(** A game played a day before the first one. *)
Lemma getFreshnessScore_monotone_witness :
  exists f1 f2,
    getFreshnessScore
      (withLastPlayed overlikedGame (Some 1699000000000%Z)) stillClock
    = Some f1
    /\ getFreshnessScore
         (withLastPlayed overlikedGame (Some 1699900000000%Z)) stillClock
       = Some f2
    /\ f1 <= f2.
Proof.
  apply (getFreshnessScore_monotone overlikedGame
           1699000000000%Z 1699900000000%Z stillClock);
    discriminate.
Defined.

(** X3.  A game without [lastPlayed] counts as fresh: as long as the two
    readings of the clock are no more than seven days apart the factor is
    1.0, and the stamp 0 is read as a missing one. *)
Theorem getFreshnessScore_never_played (g : GameCard) (clk : Js.Clock) :
  (clk 1%nat - clk 0%nat <= 7 * 86400000)%Z ->
  getFreshnessScore (withLastPlayed g None) clk = Some 1.0
  /\ getFreshnessScore (withLastPlayed g (Some 0%Z)) clk = Some 1.0.
Proof.
  intros H.
  assert (E : getFreshnessScore (withLastPlayed g (Some 0%Z)) clk
              = getFreshnessScore (withLastPlayed g None) clk) by reflexivity.
  rewrite E. cut (getFreshnessScore (withLastPlayed g None) clk = Some 1.0);
    [ intros C; split; exact C | ].
  unfold getFreshnessScore. cbn [lastPlayed withLastPlayed Js.Date_now].
  rewrite div_defined by (intro H0; discriminate H0). cbn [bind].
  unfold Js.le.
  replace (Qle_bool (inject_Z (clk 1%nat - clk 0%nat) / (1000 * 60 * 60 * 24)) 7)
    with true; [ reflexivity | ].
  symmetry. apply Qle_bool_iff.
  apply days_le in H. rewrite days_exact in H. exact H.
Qed.

(** A clock that does not move. *)
Lemma getFreshnessScore_never_played_witness :
  getFreshnessScore (withLastPlayed unopenedGame None) stillClock = Some 1.0
  /\ getFreshnessScore (withLastPlayed unopenedGame (Some 0%Z)) stillClock
     = Some 1.0.
Proof.
  apply (getFreshnessScore_never_played unopenedGame stillClock).
  discriminate.
Defined.

(** X4.  The tier is a monotone function of the score, for the order
    verified < featured < hall. *)
Theorem getTrustLevel_monotone (s1 s2 : Q) :
  s1 <= s2 ->
  (tierRank (getTrustLevel s1) <= tierRank (getTrustLevel s2))%nat.
Proof.
  intros H. unfold getTrustLevel, Js.ge.
  qcases; cbn [tierRank]; try lia; lra.
Qed.

(** The scores 0.8 and 0.95. *)
Lemma getTrustLevel_monotone_witness :
  (tierRank (getTrustLevel 0.8) <= tierRank (getTrustLevel 0.95))%nat.
Proof.
  apply (getTrustLevel_monotone 0.8 0.95). discriminate.
Defined.

(** X5.  The badge text of [getTrustLevelConfig] is the one of the table
    [TRUST_BADGE_TEXT], and the three tiers differ in colour, icon and
    text. *)
Theorem getTrustLevelConfig_consistent (l1 l2 : TrustLevel) :
  text (getTrustLevelConfig l1) = TRUST_BADGE_TEXT l1
  /\ (TrustScoreEngine.color (getTrustLevelConfig l1)
      = TrustScoreEngine.color (getTrustLevelConfig l2) -> l1 = l2)
  /\ (icon (getTrustLevelConfig l1) = icon (getTrustLevelConfig l2) ->
      l1 = l2)
  /\ (text (getTrustLevelConfig l1) = text (getTrustLevelConfig l2) ->
      l1 = l2).
Proof.
  split; [ destruct l1; reflexivity | ].
  repeat split; destruct l1, l2; intros H;
    reflexivity || (vm_compute in H; discriminate H).
Qed.

End TrustFactors.

(** ** The score under statistics with rates below one *)

Section BoundedRates.

Import TrustScoreEngine.

Variable g : GameCard.
Hypothesis play_nonneg : 0 <= avgPlayTime (stats g).
Hypothesis likes_bounded : 0 <= likes (stats g) <= opens (stats g).
Hypothesis reports_bounded : 0 <= reports (stats g) <= opens (stats g).

Lemma rate_unit (x : Q) :
  0 <= x <= opens (stats g) ->
  exists q, (if Js.gt (opens (stats g)) 0
             then Js.div x (opens (stats g)) else Some 0) = Some q
            /\ 0 <= q <= 1.
Proof.
  intros [Hx0 Hx1]. destruct (Js.gt _ 0) eqn:E.
  - unfold Js.div. rewrite (gt_zero_nonzero _ E).
    unfold Js.gt in E. apply negb_true_iff, not_true_iff_false in E.
    rewrite Qle_bool_iff in E.
    eexists; split; [ reflexivity | ].
    split; [ apply Qle_shift_div_l | apply Qle_shift_div_r ]; lra.
  - eexists; split; [ reflexivity | lra ].
Qed.

Lemma getBaseScore_unit :
  exists b, getBaseScore g = Some b /\ 0 <= b <= 1.
Proof.
  unfold getBaseScore. rewrite playTimeScore_total.
  set (p := Qmin _ 1).
  assert (Hp : 0 <= p <= 1).
  { subst p. split; [ | apply Q.le_min_r ].
    apply Q.min_glb; [ | lra ].
    unfold Js.or_else. destruct (Qeq_bool _ 0).
    - vm_compute; discriminate.
    - apply Qle_shift_div_l; lra. }
  unfold likeRate, reportRate.
  destruct (rate_unit _ likes_bounded) as (l & -> & Hl).
  destruct (rate_unit _ reports_bounded) as (r & -> & Hr).
  cbn [bind]. eexists; split; [ reflexivity | lra ].
Qed.

Lemma score_below_risk (flags : SecurityStatus) (clk : Js.Clock) :
  securityChecks (trustBadge g) = Some flags ->
  exists s k,
    calculateTrustScore g clk = Js.Returns (Some s)
    /\ getRiskLevelScore g = Js.Returns k
    /\ k == flagPenalty flags
    /\ 0 <= s <= k /\ k <= 1.
Proof.
  intros Hc. pose proof (getRiskLevelScore_cases g) as R. rewrite Hc in R.
  destruct R as (k & Ek & Ep & Hk0 & Hk1).
  unfold calculateTrustScore. rewrite Ek.
  destruct getBaseScore_unit as (b & -> & Hb).
  destruct (getFreshnessScore_total g clk) as (f & -> & Hf).
  cbn [Js.andThen bind getAgeMatchScore].
  exists (b * 1.0 * k * f), k.
  split; [ reflexivity | ]. split; [ reflexivity | ]. split; [ exact Ep | ].
  split; [ | exact Hk1 ].
  assert (Hf' : 0 <= f <= 1) by lra.
  assert (H1 : 0 <= b * 1.0 <= 1) by lra.
  assert (H2 : 0 <= b * 1.0 * k <= k) by nra.
  nra.
Qed.

End BoundedRates.

Section TierCaps.

Import TrustScoreEngine.

(** X6.  With rates that stay below one (no more likes or reports than
    opens) the score is a product of factors of the unit interval: on a
    badge that carries [securityChecks] it is returned and lies in [0, 1];
    on a badge without them the call throws. *)
Lemma calculateTrustScore_unit_interval (game : GameCard) (clk : Js.Clock) :
  0 <= avgPlayTime (stats game) ->
  0 <= likes (stats game) <= opens (stats game) ->
  0 <= reports (stats game) <= opens (stats game) ->
  match securityChecks (trustBadge game) with
  | Some _ =>
      exists s, calculateTrustScore game clk = Js.Returns (Some s)
                /\ 0 <= s <= 1
  | None => calculateTrustScore game clk = Js.Throws Js.TypeError
  end.
Proof.
  intros Ha Hl Hr.
  destruct (securityChecks (trustBadge game)) as [flags | ] eqn:E.
  - destruct (score_below_risk game Ha Hl Hr flags clk E)
      as (s & k & Es & _ & _ & Hs & Hk).
    exists s. split; [ exact Es | lra ].
  - unfold calculateTrustScore, getRiskLevelScore, readSecurityChecks.
    rewrite E. reflexivity.
Qed.

(** Half of the opens liked, one report in four opens, half an hour of play. *)
Lemma calculateTrustScore_unit_interval_witness :
  exists s,
    calculateTrustScore
      (sampleGame (mkGameStats 2 4 1 30) moderatedWithAds None) stillClock
    = Js.Returns (Some s)
    /\ 0 <= s <= 1.
Proof.
  apply (calculateTrustScore_unit_interval
           (sampleGame (mkGameStats 2 4 1 30) moderatedWithAds None)
           stillClock).
  - discriminate.
  - split; discriminate.
  - split; discriminate.
Defined.

(** X7.  With rates below one, no factor can be made up for by another:
    on a badge that carries [securityChecks] the score is at most the
    risk factor, so a game with ads stays in the tier [verified] and a
    game with tracking never reaches [hall]. *)
Theorem flagged_games_capped (g : GameCard) (flags : SecurityStatus)
    (clk : Js.Clock) :
  0 <= avgPlayTime (stats g) ->
  0 <= likes (stats g) <= opens (stats g) ->
  0 <= reports (stats g) <= opens (stats g) ->
  securityChecks (trustBadge g) = Some flags ->
  exists s k,
    calculateTrustScore g clk = Js.Returns (Some s)
    /\ getRiskLevelScore g = Js.Returns k
    /\ s <= k
    /\ (hasAds flags = true -> getTrustLevel s = verified)
    /\ (hasTracking flags = true -> getTrustLevel s <> hall).
Proof.
  intros Ha Hl Hr Hc.
  destruct (score_below_risk g Ha Hl Hr flags clk Hc)
    as (s & k & Es & Ek & Ep & [Hs0 Hs1] & Hk).
  exists s, k. split; [ exact Es | ]. split; [ exact Ek | ].
  split; [ exact Hs1 | ].
  rewrite Ep in Hs1. unfold flagPenalty in Hs1.
  unfold getTrustLevel, Js.ge.
  destruct flags as [ads trk ext cm].
  cbn [hasAds hasTracking hasExternalLinks] in *.
  split; intros ->; destruct ext; try destruct trk; try destruct ads;
    qcases; try reflexivity; try discriminate; exfalso; lra.
Qed.

(** A game with ads and honest statistics. *)
Lemma flagged_games_capped_witness :
  exists s k,
    calculateTrustScore
      (sampleGame (mkGameStats 4 4 0 60) moderatedWithAds None) stillClock
    = Js.Returns (Some s)
    /\ getRiskLevelScore
         (sampleGame (mkGameStats 4 4 0 60) moderatedWithAds None)
       = Js.Returns k
    /\ s <= k
    /\ (hasAds moderatedWithAds = true -> getTrustLevel s = verified)
    /\ (hasTracking moderatedWithAds = true -> getTrustLevel s <> hall).
Proof.
  apply (flagged_games_capped
           (sampleGame (mkGameStats 4 4 0 60) moderatedWithAds None)
           moderatedWithAds stillClock).
  - discriminate.
  - split; discriminate.
  - split; discriminate.
  - reflexivity.
Defined.

(** X8.  A game that passes the strict safety check also passes the
    lenient one, and its risk factor is returned and is at least 0.9:
    only external links can still lower it. *)
Theorem strict_safe_low_risk (g : GameCard) :
  isGameSafe g true = Js.Returns true ->
  isGameSafe g false = Js.Returns true
  /\ exists k, getRiskLevelScore g = Js.Returns k /\ 0.9 <= k.
Proof.
  unfold isGameSafe, getRiskLevelScore, readSecurityChecks.
  destruct (securityChecks (trustBadge g)) as [[[] [] [] []] | ];
    cbn [Js.andThen hasAds hasTracking hasExternalLinks contentModerated
         negb orb];
    intros H; try discriminate H;
    (split; [ reflexivity | ]);
    eexists; (split; [ reflexivity | ]); vm_compute; discriminate.
Qed.

(** A moderated game without ads or tracking. *)
Lemma strict_safe_low_risk_witness :
  isGameSafe overlikedGame false = Js.Returns true
  /\ exists k, getRiskLevelScore overlikedGame = Js.Returns k /\ 0.9 <= k.
Proof.
  apply (strict_safe_low_risk overlikedGame). reflexivity.
Defined.

End TierCaps.

(** ** Parsing and rendering age keys *)

Section AgeKeys.

Import AgeRecommendationEngine.


Lemma splitAt_absent (c : ascii) (u : string) (d : Decimal.uint) :
  (forall o, uint_of_char c o = None) ->
  NilEmpty.uint_of_string u = Some d ->
  Js.splitAt c u = None.
Proof.
  intros Hc. revert d. induction u as [ | a u IH ]; intros d; simpl.
  - reflexivity.
  - intros H. destruct (Ascii.eqb_spec a c) as [-> | _].
    + now rewrite Hc in H.
    + destruct (NilEmpty.uint_of_string u) as [d' | ] eqn:E.
      * now rewrite (IH d' eq_refl).
      * destruct a as [[] [] [] [] [] [] [] []]; discriminate H.
Qed.





Lemma parseDigits_nonneg (s : string) (n : Z) :
  Js.parseDigits s = Some n -> (0 <= n)%Z.
Proof.
  unfold Js.parseDigits.
  destruct (NilZero.uint_of_string s) as [d | ]; [ | discriminate ].
  intros [= <-]. unfold Z.of_uint. apply N2Z.is_nonneg.
Qed.






(** X13.  Whatever string is parsed, a band that comes out has
    non-negative bounds, and a string that holds neither a dash nor a plus
    sign is rejected. *)
Theorem parseAgeRange_sound (ageStr : string) :
  (forall r, parseAgeRange ageStr = Some r -> (0 <= fst r)%Z /\ (0 <= snd r)%Z)
  /\ (Js.splitAt "-" ageStr = None -> Js.splitAt "+" ageStr = None ->
      parseAgeRange ageStr = None).
Proof.
  unfold parseAgeRange, matchRange, matchPlus. split.
  - intros r.
    destruct (Js.splitAt "-" ageStr) as [[l h] | ].
    + destruct (Js.parseDigits l) as [lo | ] eqn:El,
               (Js.parseDigits h) as [hi | ] eqn:Eh;
        try (intros [= <-]; cbn [fst snd]; split;
             eapply parseDigits_nonneg; eassumption).
      all: destruct (Js.splitAt "+" ageStr) as [[l' [ | ]] | ];
        try discriminate;
        destruct (Js.parseDigits l') as [n | ] eqn:En; try discriminate;
        intros [= <-]; cbn [fst snd]; split; [ | lia ];
        eapply parseDigits_nonneg; eassumption.
    + destruct (Js.splitAt "+" ageStr) as [[l' [ | ]] | ];
        try discriminate.
      destruct (Js.parseDigits l') as [n | ] eqn:En; try discriminate.
      intros [= <-]; cbn [fst snd]; split; [ | lia ].
      eapply parseDigits_nonneg; eassumption.
  - intros -> ->. reflexivity.
Qed.

(** A word without separators. *)
Lemma parseAgeRange_sound_witness : parseAgeRange "abc" = None.
Proof.
  apply (proj2 (parseAgeRange_sound "abc")); reflexivity.
Defined.

End AgeKeys.

(** ** Labels, colours and the bands of a child's age *)

Section AgeBands.

Import AgeRecommendationEngine.

Lemma splitAt_found (c : ascii) (u t : string) :
  Js.splitAt c (u ++ String c t) <> None.
Proof.
  induction u as [ | a u IH ]; simpl.
  - now rewrite Ascii.eqb_refl.
  - destruct (Ascii.eqb a c); [ discriminate | ].
    destruct (Js.splitAt c (u ++ String c t)) as [[l r] | ];
      [ discriminate | contradiction ].
Qed.

Lemma rangeKey_has_dash (r : AgeRange) : Js.splitAt "-" (rangeKey r) <> None.
Proof.
  unfold rangeKey. apply splitAt_found.
Qed.

Lemma rangeKey_not_plus (r : AgeRange) : String.eqb "12+" (rangeKey r) = false.
Proof.
  destruct (String.eqb_spec "12+" (rangeKey r)) as [E | _]; [ | reflexivity ].
  destruct (rangeKey_has_dash r). now rewrite <- E.
Qed.

(** X15.  The label of a band is always its key followed by the year
    sign: the three bands found in [AGE_GROUPS] are labelled that way
    there, and the entry of the key [12+] is never found, so the band
    (12, 99) is labelled like an unknown band. *)
Theorem getAgeLabel_is_key (r : AgeRange) :
  getAgeLabel r = (rangeKey r ++ "岁")%string.
Proof.
  unfold getAgeLabel, AGE_GROUPS. cbn [Js.Map_get].
  rewrite rangeKey_not_plus.
  repeat match goal with
         | |- context [String.eqb ?k (rangeKey r)] =>
             destruct (String.eqb_spec k (rangeKey r)) as [<- | _];
             [ reflexivity | ]
         end.
  reflexivity.
Qed.

(** X16.  Only the bands (3, 6) and (9, 12) have a colour of their own;
    every other band, (12, 99) included, gets the blue of (6, 9), and the
    colour configured for [12+] is never returned. *)
Theorem getAgeColor_cases (r : AgeRange) :
  getAgeColor r
  = (if AgeRange_eqb r (3, 6)%Z then "#10B981"
     else if AgeRange_eqb r (9, 12)%Z then "#8B5CF6"
     else "#3B82F6")%string
  /\ getAgeColor r <> "#F59E0B"%string.
Proof.
  assert (E : getAgeColor r
              = (if AgeRange_eqb r (3, 6)%Z then "#10B981"
                 else if AgeRange_eqb r (9, 12)%Z then "#8B5CF6"
                 else "#3B82F6")%string).
  { unfold getAgeColor, AGE_GROUPS. cbn [Js.Map_get].
    rewrite rangeKey_not_plus.
    change "3-6"%string with (rangeKey (3, 6)%Z).
    change "6-9"%string with (rangeKey (6, 9)%Z).
    change "9-12"%string with (rangeKey (9, 12)%Z).
    rewrite !rangeKey_eqb, !(AgeRange_eqb_sym r).
    destruct (AgeRange_eqb (3, 6)%Z r); [ reflexivity | ].
    destruct (AgeRange_eqb (6, 9)%Z r) eqn:E69.
    - destruct (AgeRange_eqb_spec (6, 9)%Z r) as [Heq | ]; [ | discriminate ].
      rewrite <- Heq. reflexivity.
    - destruct (AgeRange_eqb (9, 12)%Z r); reflexivity. }
  split; [ exact E | ]. rewrite E.
  destruct (AgeRange_eqb r (3, 6)%Z); [ discriminate | ].
  destruct (AgeRange_eqb r (9, 12)%Z); discriminate.
Qed.

Lemma recommendByChildAge_canonical (childAge : Z) :
  recommendByChildAge childAge = (3, 6)%Z
  \/ recommendByChildAge childAge = (6, 9)%Z
  \/ recommendByChildAge childAge = (9, 12)%Z
  \/ recommendByChildAge childAge = (12, 99)%Z.
Proof.
  unfold recommendByChildAge. zcases; cbn; auto.
Qed.

(** X14.  The bands recommended for a child's age are the bands of the
    age groups: every age is sent to a band that some key of [AGE_GROUPS]
    parses to, and every key of [AGE_GROUPS] parses to the band of some
    age. *)
Theorem age_groups_cover_ages :
  (forall childAge, exists key config,
      In (key, config) AGE_GROUPS
      /\ parseAgeRange key = Some (recommendByChildAge childAge))
  /\ (forall key config, In (key, config) AGE_GROUPS ->
      exists childAge,
        parseAgeRange key = Some (recommendByChildAge childAge)).
Proof.
  split.
  - intros childAge.
    destruct (recommendByChildAge_canonical childAge)
      as [-> | [-> | [-> | ->]]].
    + exists "3-6"%string. eexists. split; [ left; reflexivity | reflexivity ].
    + exists "6-9"%string. eexists.
      split; [ right; left; reflexivity | reflexivity ].
    + exists "9-12"%string. eexists.
      split; [ do 2 right; left; reflexivity | reflexivity ].
    + exists "12+"%string. eexists.
      split; [ do 3 right; left; reflexivity | reflexivity ].
  - intros key config [H | [H | [H | [H | []]]]]; injection H as <- _.
    + now exists 4%Z.
    + now exists 7%Z.
    + now exists 10%Z.
    + now exists 13%Z.
Qed.

(** X17.  For an age from 3 to 99 the recommended band contains the age,
    so the age matches it with the full score. *)
Theorem recommendByChildAge_contains (childAge : Z) :
  (3 <= childAge <= 99)%Z ->
  (fst (recommendByChildAge childAge) <= childAge
   <= snd (recommendByChildAge childAge))%Z
  /\ getAgeMatchScore childAge (recommendByChildAge childAge) = 1.0.
Proof.
  intros H. unfold getAgeMatchScore, recommendByChildAge.
  zcases; cbn [fst snd andb orb]; zcases; cbn [andb orb];
    try lia; split; try lia; reflexivity.
Qed.

(** A child of nine, at the border of two bands. *)
Lemma recommendByChildAge_contains_witness :
  (fst (recommendByChildAge 9) <= 9 <= snd (recommendByChildAge 9))%Z
  /\ getAgeMatchScore 9 (recommendByChildAge 9) = 1.0.
Proof.
  apply (recommendByChildAge_contains 9). split; discriminate.
Defined.

(** X18.  An older child is never sent to a lower band: both bounds of
    the recommended band grow with the age. *)
Theorem recommendByChildAge_monotone (a b : Z) :
  (a <= b)%Z ->
  (fst (recommendByChildAge a) <= fst (recommendByChildAge b))%Z
  /\ (snd (recommendByChildAge a) <= snd (recommendByChildAge b))%Z.
Proof.
  intros H. unfold recommendByChildAge.
  zcases; cbn [fst snd andb]; lia.
Qed.

(** The ages 5 and 11. *)
Lemma recommendByChildAge_monotone_witness :
  (fst (recommendByChildAge 5) <= fst (recommendByChildAge 11))%Z
  /\ (snd (recommendByChildAge 5) <= snd (recommendByChildAge 11))%Z.
Proof.
  apply (recommendByChildAge_monotone 5 11). discriminate.
Defined.

(** X19.  For a band with [min <= max] the match score depends only on
    how many years the age lies outside the band: 1.0 inside, 0.8 one
    year out, 0.6 two years out, 0.3 beyond. *)
Theorem getAgeMatchScore_distance (userAge : Z) (r : AgeRange) :
  (fst r <= snd r)%Z ->
  getAgeMatchScore userAge r = scoreAtDistance (distanceToBand userAge r).
Proof.
  destruct r as [lo hi]. cbn [fst snd]. intros H.
  unfold getAgeMatchScore, scoreAtDistance, distanceToBand. cbn [fst snd].
  zcases; cbn [andb orb]; try reflexivity; lia.
Qed.

(** An age two years under the band (6, 9). *)
Lemma getAgeMatchScore_distance_witness :
  getAgeMatchScore 4 (6, 9)%Z = scoreAtDistance (distanceToBand 4 (6, 9)%Z).
Proof.
  apply (getAgeMatchScore_distance 4 (6, 9)%Z). discriminate.
Defined.

End AgeBands.

(** ** Majorities and the age tabs *)

Section Selection.

Import AgeRecommendationEngine.

(** X21.  Without a preference, a band that occurs strictly more often
    in the history than every other band is the one recommended, wherever
    its occurrences stand in the list. *)
Theorem recommendAge_majority (h : UserHistory) (r : AgeRange) :
  preferredAge h = None ->
  In r (map playedRange (recentGames h)) ->
  (forall r', r' <> r ->
     (occurrences r' (map playedRange (recentGames h))
      < occurrences r (map playedRange (recentGames h)))%nat) ->
  recommendAge (Some h) = r.
Proof.
  intros Hp Hr Hmax.
  set (ages := map playedRange (recentGames h)) in *.
  assert (Ha : ages <> []) by (intros E; rewrite E in Hr; exact Hr).
  destruct (getMostCommonAgeRange_spec ages Ha) as (m & Hm & _ & Hge & _).
  assert (E : recommendAge (Some h) = m).
  { unfold recommendAge. rewrite Hp.
    destruct (recentGames h) as [ | x l ] eqn:El; [ now destruct Ha | ].
    cbn [List.length Nat.eqb]. fold ages. now rewrite Hm. }
  rewrite E. destruct (AgeRange_eq_dec m r) as [-> | N]; [ reflexivity | ].
  specialize (Hmax m N). specialize (Hge r). lia.
Qed.

(** One game of (3, 6) between two games of (9, 12). *)
Lemma recommendAge_majority_witness :
  recommendAge
    (Some (mkUserHistory
             [played (9, 12)%Z; played (3, 6)%Z; played (9, 12)%Z] None))
  = (9, 12)%Z.
Proof.
  apply (recommendAge_majority
           (mkUserHistory
              [played (9, 12)%Z; played (3, 6)%Z; played (9, 12)%Z] None)
           (9, 12)%Z).
  - reflexivity.
  - left. reflexivity.
  - intros r' N. cbn [map recentGames playedRange played].
    change (occurrences (9, 12)%Z [(9, 12)%Z; (3, 6)%Z; (9, 12)%Z])
      with 2%nat.
    unfold occurrences. cbn [filter].
    destruct (AgeRange_eqb_spec r' (9, 12)%Z) as [E | _];
      [ contradiction | ].
    destruct (AgeRange_eqb r' (3, 6)%Z); cbn [List.length]; lia.
Defined.



(** X23.  The tab [12+] is never shown as selected nor as recommended,
    whatever band is selected or recommended: a click on it selects the
    band (12, 99), whose key is [12-99]. *)
Theorem plus_tab_never_marked (selectedAge : AgeRange)
    (recommendedAge : option AgeRange) :
  AgeSelector.isSelected selectedAge "12+" = false
  /\ AgeSelector.isRecommended recommendedAge "12+" = false
  /\ AgeSelector.handleAgeSelect "12+" selectedAge = (12, 99)%Z
  /\ AgeSelector.isSelected
       (AgeSelector.handleAgeSelect "12+" selectedAge) "12+" = false.
Proof.
  assert (N : forall r, String.eqb (rangeKey r) "12+" = false)
    by (intros r; rewrite String.eqb_sym; apply rangeKey_not_plus).
  unfold AgeSelector.isSelected, AgeSelector.isRecommended.
  repeat split; auto.
  destruct recommendedAge; auto.
Qed.

End Selection.

(** ** What the safety functions read, and what a recommendation can be *)

Section Footprint.

Import TrustScoreEngine AgeRecommendationEngine.

(** X24.  The security status is all that the safety check and the risk
    factor read of a game: two games for which [calculateSecurityStatus]
    ends the same way (the same status returned, or a [TypeError] thrown
    for both) get the same result of [isGameSafe] in both modes and the
    same risk factor. *)
Theorem security_status_decides (g1 g2 : GameCard) (strictMode : bool) :
  calculateSecurityStatus g1 = calculateSecurityStatus g2 ->
  isGameSafe g1 strictMode = isGameSafe g2 strictMode
  /\ getRiskLevelScore g1 = getRiskLevelScore g2.
Proof.
  unfold calculateSecurityStatus, isGameSafe, getRiskLevelScore,
    readSecurityChecks.
  destruct (securityChecks (trustBadge g1)) as [[a1 t1 e1 m1] | ],
           (securityChecks (trustBadge g2)) as [[a2 t2 e2 m2] | ];
    cbn [Js.andThen hasAds hasTracking hasExternalLinks contentModerated];
    intros H; try discriminate H; [ | split; reflexivity ].
  injection H as -> -> -> ->. split; reflexivity.
Qed.

(** Two cards of the declared type, and two cards that carry the flags. *)
Lemma security_status_decides_witness :
  (isGameSafe (declaredGame (mkGameStats 1 1 0 1) moderatedWithAds None) true
   = isGameSafe (declaredGame (mkGameStats 2 4 1 30) moderatedOnly None) true
   /\ getRiskLevelScore
        (declaredGame (mkGameStats 1 1 0 1) moderatedWithAds None)
      = getRiskLevelScore
          (declaredGame (mkGameStats 2 4 1 30) moderatedOnly None))
  /\ (isGameSafe overlikedGame true = isGameSafe unopenedGame true
      /\ getRiskLevelScore overlikedGame = getRiskLevelScore unopenedGame).
Proof.
  split.
  - apply (security_status_decides
             (declaredGame (mkGameStats 1 1 0 1) moderatedWithAds None)
             (declaredGame (mkGameStats 2 4 1 30) moderatedOnly None) true).
    reflexivity.
  - apply (security_status_decides overlikedGame unopenedGame true).
    reflexivity.
Defined.

(** X25.  A recommendation is never made up: it is the default band, the
    preferred band of the history, or the band of one of its games. *)
Theorem recommendAge_origin (userHistory : option UserHistory) :
  recommendAge userHistory = getDefaultAge
  \/ exists h, userHistory = Some h
       /\ (preferredAge h = Some (recommendAge userHistory)
           \/ In (recommendAge userHistory)
                 (map playedRange (recentGames h))).
Proof.
  destruct userHistory as [h | ]; [ | now left ].
  unfold recommendAge.
  destruct (recentGames h) as [ | x l ] eqn:El; [ now left | ].
  cbn [List.length Nat.eqb].
  destruct (preferredAge h) as [p | ] eqn:Ep.
  - right. exists h. auto.
  - assert (Ha : map playedRange (x :: l) <> []) by discriminate.
    destruct (getMostCommonAgeRange_spec _ Ha) as (m & -> & Hin & _).
    right. exists h. split; [ reflexivity | ]. right.
    rewrite El. exact Hin.
Qed.

End Footprint.
